(** * h11/headers.py: header normalisation, comma-list access and framing

    A shallow embedding of [src/h11/headers.py].  Python [bytes] objects are
    lists of bytes, Python exceptions are the [Raise] outcome of a small
    error monad, the loops of the source are folds over the header list that
    thread the loop variables, and the one in-place mutation
    ([headers[:] = new_headers]) acts on a store of list objects. *)

From Stdlib Require Import ZArith NArith List Bool Lia.
From Stdlib Require Strings.String Strings.Byte.
From stdpp Require Import gmap.
Import ListNotations.
Import Stdlib.Strings.String.StringSyntax Stdlib.Strings.Byte.ByteNotations.

Delimit Scope byte_scope with byte.
Local Open Scope Z_scope.
Local Open Scope string_scope.

(** ** Python [bytes] *)

Module Bytes.

Import Stdlib.Init.Byte.

Definition bytes := list byte.

(** A bytes literal [b"..."] of the source. *)
Definition B (s : String.string) : bytes := String.list_byte_of_string s.

#[export] Instance byte_eq_dec : EqDecision byte := Byte.byte_eq_dec.

(** The whitespace of [bytes.strip()] and of [int()]: space, tab, newline,
    carriage return, vertical tab, form feed. *)
Definition isspace (c : byte) : bool :=
  match c with
  | x09 | x0a | x0b | x0c | x0d | x20 => true
  | _ => false
  end.

Definition isdigit (c : byte) : bool :=
  let n := Byte.to_N c in (48 <=? n)%N && (n <=? 57)%N.

Definition isupper (c : byte) : bool :=
  let n := Byte.to_N c in (65 <=? n)%N && (n <=? 90)%N.

(** [bytes.lower()] maps the ASCII letters [A]..[Z] to [a]..[z] and leaves
    every other byte alone. *)
Definition byte_lower (c : byte) : byte :=
  if isupper c
  then match Byte.of_N (Byte.to_N c + 32) with Some c' => c' | None => c end
  else c.

Definition lower (b : bytes) : bytes := map byte_lower b.

Fixpoint lstrip (b : bytes) : bytes :=
  match b with
  | c :: r => if isspace c then lstrip r else b
  | [] => []
  end.

Definition rstrip (b : bytes) : bytes := rev (lstrip (rev b)).

(** [bytes.strip()] with no argument. *)
Definition strip (b : bytes) : bytes := rstrip (lstrip b).

(** [bytes.split(sep)] for a one-byte separator: the pieces between the
    separators, empty pieces included, so the result is never empty. *)
Fixpoint split (sep : byte) (b : bytes) : list bytes :=
  match b with
  | [] => [[]]
  | c :: r =>
      if bool_decide (c = sep) then [] :: split sep r
      else match split sep r with
           | p :: ps => (c :: p) :: ps
           | [] => [[c]]
           end
  end.

(** Truth value of a bytes object or of a list: non-empty. *)
Definition truthy {A} (l : list A) : bool :=
  match l with [] => false | _ :: _ => true end.

(** [a < b] on bytes: lexicographic order on the unsigned byte values. *)
Fixpoint bytes_ltb (a b : bytes) : bool :=
  match a, b with
  | [], [] => false
  | [], _ :: _ => true
  | _ :: _, [] => false
  | x :: a', y :: b' =>
      if (Byte.to_N x <? Byte.to_N y)%N then true
      else if (Byte.to_N y <? Byte.to_N x)%N then false
      else bytes_ltb a' b'
  end.

(** [x in l] for a list of bytes objects. *)
Definition bytes_in (x : bytes) (l : list bytes) : bool :=
  existsb (fun y => bool_decide (y = x)) l.

Definition digit_value (c : byte) : Z := Z.of_N (Byte.to_N c) - 48.

(** The digits of a decimal literal as [int()] reads them: ASCII digits, with
    single underscores allowed between two digits.  [after_digit] records
    that the byte just read was a digit. *)
Fixpoint int_digits (b : bytes) (acc : Z) (after_digit : bool) : option Z :=
  match b with
  | [] => if after_digit then Some acc else None
  | c :: r =>
      if isdigit c then int_digits r (10 * acc + digit_value c) true
      else if bool_decide (c = x5f) && after_digit then int_digits r acc false
      else None
  end.

(** The limit of [int()] on the number of digits of a decimal literal,
    [sys.int_info.default_max_str_digits]: the interpreter's default, in
    force unless it was started or set up with another one. *)
Definition int_max_str_digits : nat := 4300.

(** The digits that the limit counts: the digit bytes, not the underscores. *)
Definition count_digits (b : bytes) : nat := length (List.filter isdigit b).

(** The literal after the sign: with more digits than the limit [int()]
    raises, otherwise the digits are read. *)
Definition int_literal (b : bytes) : option Z :=
  if (int_max_str_digits <? count_digits b)%nat then None
  else int_digits b 0 false.

(** [int(b)] on a bytes object, base ten: surrounding whitespace is skipped,
    one sign is allowed, then the digits, no more of them than the limit.
    [None] stands for [ValueError].  Below the limit integers are
    unbounded, as Python's are. *)
Definition py_int (b : bytes) : option Z :=
  match strip b with
  | [] => None
  | c :: r =>
      if bool_decide (c = x2b) then int_literal r
      else if bool_decide (c = x2d) then Z.opp <$> int_literal r
      else int_literal (c :: r)
  end.

End Bytes.
Import Bytes.

(** ** Exceptions *)

(** The five [ProtocolError]s that [normalize_and_validate] raises, by their
    message in the source. *)
Inductive protocol_error :=
  | IllegalHeaderName (name : bytes)  (* "Illegal header name {}" *)
  | MultipleContentLength             (* "multiple Content-Length headers" *)
  | BadContentLength                  (* "bad Content-Length" *)
  | MultipleTransferEncoding          (* "multiple Transfer-Encoding headers" *)
  | OnlyChunkedSupported.             (* "Only Transfer-Encoding: chunked is supported" *)

Inductive exn :=
  | ProtocolError (e : protocol_error)
  | AssertionError
  | ValueError.

Inductive result (A : Type) :=
  | Ok (a : A)
  | Raise (e : exn).
Arguments Ok {A} a.
Arguments Raise {A} e.

#[export] Instance result_ret : MRet result := @Ok.
#[export] Instance result_bind : MBind result := fun A B f m =>
  match m with Ok a => f a | Raise e => Raise e end.

(** A [for] loop whose body may raise: the loop variables are threaded
    through the elements in order, and the first exception ends the loop. *)
Fixpoint for_each {S A} (body : S -> A -> result S) (l : list A) (s : S) : result S :=
  match l with
  | [] => Ok s
  | a :: l' => s' ← body s a; for_each body l' s'
  end.

(** ** Data model *)

(** A header name or value as a caller hands it in: a [bytes] object or a
    [str]. *)
Inductive field_data :=
  | Raw (b : bytes)
  | Text (s : String.string).

(** A header of a header list that went through the normalizer. *)
Abbreviation header := (bytes * bytes)%type.

Abbreviation raw_header := (field_data * field_data)%type.

(** The header list as the caller of the normalizer would write it when the
    names and values are already bytes. *)
Definition as_raw (h : list header) : list raw_header :=
  map (fun '(n, v) => (Raw n, Raw v)) h.

(** Modelled from the spec: [bytesify] of [h11/util.py], which is not among
    the sources.  Names and values "may arrive as text or raw byte data and
    are converted to a canonical byte representation": bytes stay as they
    are, text is taken character by character to its byte. *)
Definition bytesify (d : field_data) : bytes :=
  match d with
  | Raw b => b
  | Text s => String.list_byte_of_string s
  end.

(** [_content_length_re = re.compile(rb"^[0-9]+$")], as the predicate "the
    pattern matches [data]".  [[0-9]+] takes a non-empty run of ASCII digits;
    Python's [$] holds at the end of the data and also just before a newline
    that is the last byte. *)
Fixpoint digits_to_end (data : bytes) : bool :=
  match data with
  | [] => true
  | c :: r => if isdigit c then digits_to_end r else bool_decide (data = [Byte.x0a])
  end.

Definition _content_length_re (data : bytes) : bool :=
  match data with
  | c :: r => isdigit c && digits_to_end r
  | [] => false
  end.

(** Modelled from the spec: [validate] of [h11/util.py], which is not among
    the sources.  "Validate the value against digits-only; on mismatch
    fail": the call raises the [ProtocolError] of the given message when the
    pattern does not match. *)
Definition validate (regex : bytes -> bool) (data : bytes) (msg : protocol_error) : result unit :=
  if regex data then Ok tt else Raise (ProtocolError msg).

(** ** normalize_and_validate *)

(** The loop variables of [normalize_and_validate]. *)
Record norm_state := NormState {
  new_headers : list header;
  saw_content_length : bool;
  saw_transfer_encoding : bool
}.

(** One turn of the loop [for name, value in headers]. *)
Definition normalize_step (st : norm_state) (h : raw_header) : result norm_state :=
  let '(name, value) := h in
  let name := bytesify name in
  let value := bytesify value in
  let name_lower := lower name in
  if negb (bool_decide (strip name = name))
  then Raise (ProtocolError (IllegalHeaderName name))
  else
    saw_cl ←
      (if bool_decide (name_lower = B "content-length") then
         if saw_content_length st then Raise (ProtocolError MultipleContentLength)
         else _ ← validate _content_length_re value BadContentLength; Ok true
       else Ok (saw_content_length st));
    saw_te ←
      (if bool_decide (name_lower = B "transfer-encoding") then
         if saw_transfer_encoding st then Raise (ProtocolError MultipleTransferEncoding)
         else if negb (bool_decide (lower value = B "chunked"))
         then Raise (ProtocolError OnlyChunkedSupported)
         else Ok true
       else Ok (saw_transfer_encoding st));
    Ok (NormState (new_headers st ++ [(name, value)]) saw_cl saw_te).

Definition normalize_and_validate (headers : list raw_header) : result (list header) :=
  st ← for_each normalize_step headers (NormState [] false false);
  Ok (new_headers st).

(** ** get_comma_header *)

Definition get_comma_header (headers : list header) (name : field_data)
    (lowercase : bool) : list bytes :=
  let name := lower (bytesify name) in
  fold_left (fun out '(found_name, found_raw_value) =>
    let found_name := lower found_name in
    if bool_decide (found_name = name) then
      let found_raw_value := if lowercase then lower found_raw_value else found_raw_value in
      fold_left (fun out found_split_value =>
        let found_split_value := strip found_split_value in
        if truthy found_split_value then out ++ [found_split_value] else out)
        (split ","%byte found_raw_value) out
    else out) headers [].

(** ** set_comma_header *)

(** List objects live in a store; a variable holds the location of its
    list, so two variables bound to one list see each other's writes. *)
Definition loc := positive.
Abbreviation store := (gmap loc (list header)).

(** The call returns nothing; its effect is the slice assignment
    [headers[:] = new_headers] on the list object that [headers] names. *)
Definition set_comma_header (headers : loc) (name : field_data)
    (new_values : list bytes) (σ : store) : store :=
  let name := bytesify name in
  let name_lower := lower name in
  let new_headers := [] in
  let new_headers :=
    fold_left (fun new_headers '(found_name, found_raw_value) =>
      if negb (bool_decide (lower found_name = name_lower))
      then new_headers ++ [(found_name, found_raw_value)]
      else new_headers) (σ !!! headers) new_headers in
  let new_headers :=
    fold_left (fun new_headers new_value => new_headers ++ [(name, new_value)])
      new_values new_headers in
  <[headers := new_headers]> σ.

(** ** framing_headers *)

Definition framing_headers (headers : list header) : result (option bytes * option Z) :=
  let transfer_encodings := get_comma_header headers (Text "Transfer-Encoding") true in
  if truthy transfer_encodings then
    if bool_decide (transfer_encodings = [B "chunked"])
    then Ok (Some (B "chunked"), None)
    else Raise AssertionError
  else
    let content_lengths := get_comma_header headers (Text "Content-Length") true in
    match content_lengths with
    | first :: _ =>
        match py_int first with
        | Some n => Ok (None, Some n)
        | None => Raise ValueError
        end
    | [] => Ok (None, None)
    end.

(** ** has_expect_100_continue *)

(** The two attributes of a request that the function reads. *)
Record Request := {
  http_version : bytes;
  headers : list header
}.

Definition has_expect_100_continue (request : Request) : bool :=
  if bytes_ltb (http_version request) (B "1.1") then false
  else
    let expect := get_comma_header (headers request) (Text "Expect") false in
    bytes_in (B "100-continue") expect.

(** ** The comma list as the specification words it *)

(** The pieces of one header value: split on the comma, strip each piece,
    drop the empty ones, lower-case each one when asked to. *)
Definition comma_pieces (lowercase : bool) (value : bytes) : list bytes :=
  map (fun p => if lowercase then lower p else p)
      (List.filter truthy (map strip (split ","%byte value))).

(** Case-insensitive match of a header name. *)
Definition name_matches (name : bytes) (h : header) : bool :=
  bool_decide (lower (fst h) = lower name).

Definition comma_list_spec (headers : list header) (name : field_data)
    (lowercase : bool) : list bytes :=
  concat (map (fun h => comma_pieces lowercase (snd h))
              (List.filter (name_matches (bytesify name)) headers)).

(** ** Definitions for the statements *)

(** The tokens that the inner loop appends for one matching header. *)
Definition header_tokens (lowercase : bool) (value : bytes) : list bytes :=
  List.filter truthy
    (map strip (split ","%byte (if lowercase then lower value else value))).

(** The byte form of an input entry. *)
Definition convert (h : raw_header) : header :=
  (bytesify (fst h), bytesify (snd h)).

(** The two name tests of the normalizer. *)
Definition is_content_length (name : bytes) : bool :=
  bool_decide (lower name = B "content-length").

Definition is_transfer_encoding (name : bytes) : bool :=
  bool_decide (lower name = B "transfer-encoding").

(** Every byte is an ASCII digit. *)
Definition all_digits (b : bytes) : Prop := Forall (fun c => isdigit c = true) b.

(** The two comma lists that [framing_headers] asks for. *)
Definition transfer_encodings_of (h : list header) : list bytes :=
  get_comma_header h (Text "Transfer-Encoding") true.

Definition content_lengths_of (h : list header) : list bytes :=
  get_comma_header h (Text "Content-Length") true.

(** A non-empty value of ASCII digits only. *)
Definition all_digitsb (b : bytes) : bool := truthy b && forallb isdigit b.

(** The valid header lists of the specification: no name with surrounding
    whitespace, at most one [Content-Length], whose value is all digits, and
    at most one [Transfer-Encoding], whose value is [chunked] in any case. *)
Definition valid_headers (h : list header) : bool :=
  forallb (fun e : header => bool_decide (strip (fst e) = fst e)) h
  && (length (List.filter (fun e : header => is_content_length (fst e)) h) <=? 1)%nat
  && forallb (fun e : header => implb (is_content_length (fst e)) (all_digitsb (snd e))) h
  && (length (List.filter (fun e : header => is_transfer_encoding (fst e)) h) <=? 1)%nat
  && forallb (fun e : header =>
                implb (is_transfer_encoding (fst e)) (bool_decide (lower (snd e) = B "chunked"))) h.

(** The lexicographic order on bytes: a proper prefix comes first, and
    otherwise the first byte that differs decides. *)
Inductive lex_lt : bytes -> bytes -> Prop :=
  | lex_lt_nil y b : lex_lt [] (y :: b)
  | lex_lt_head x a y b : (Byte.to_N x < Byte.to_N y)%N -> lex_lt (x :: a) (y :: b)
  | lex_lt_tail x a b : lex_lt a b -> lex_lt (x :: a) (x :: b).

(** The rejection test in the words of the specification, where the value
    is stripped before it is looked at: an entry is a violation when its
    name has surrounding whitespace, when it is a second [Content-Length] or
    a [Content-Length] whose stripped value is not all digits, when it is a
    second [Transfer-Encoding] or a [Transfer-Encoding] whose stripped,
    lower-cased value is not [chunked]. *)
Definition spec_violation (seen_cl seen_te : bool) (e : raw_header) : bool :=
  let name := bytesify (fst e) in
  let value := strip (bytesify (snd e)) in
  negb (bool_decide (strip name = name))
  || is_content_length name && (seen_cl || negb (all_digitsb value))
  || is_transfer_encoding name
     && (seen_te || negb (bool_decide (lower value = B "chunked"))).

Fixpoint spec_rejects (seen_cl seen_te : bool) (raw : list raw_header) : bool :=
  match raw with
  | [] => false
  | e :: raw' =>
      spec_violation seen_cl seen_te e
      || spec_rejects (seen_cl || is_content_length (bytesify (fst e)))
                      (seen_te || is_transfer_encoding (bytesify (fst e))) raw'
  end.

(** The header lists that the loop of [normalize_and_validate] lets
    through, said without the loop: every name is free of surrounding
    whitespace, at most one name is [Content-Length] and its value matches
    [_content_length_re], at most one name is [Transfer-Encoding] and its
    value is [chunked] in some case. *)
Definition well_formed (h : list header) : bool :=
  forallb (fun e : header => bool_decide (strip (fst e) = fst e)) h
  && (length (List.filter (fun e : header => is_content_length (fst e)) h) <=? 1)%nat
  && forallb (fun e : header =>
                implb (is_content_length (fst e)) (_content_length_re (snd e))) h
  && (length (List.filter (fun e : header => is_transfer_encoding (fst e)) h) <=? 1)%nat
  && forallb (fun e : header =>
                implb (is_transfer_encoding (fst e)) (bool_decide (lower (snd e) = B "chunked"))) h.


(** A value that is one token already: not empty, no whitespace around it,
    no comma in it. *)
Definition clean_token (t : bytes) : bool :=
  truthy t
  && bool_decide (strip t = t)
  && negb (existsb (fun c => bool_decide (c = ","%byte)) t).

(** The list object at a location after a call that wrote to the store. *)
Definition list_at (σ : store) (l : loc) : list header := σ !!! l.

(** * Lemmas on bytes *)

Section ByteFacts.

(** A fact about one byte is checked on each of the 256 bytes. *)
Ltac byte_cases c := destruct c; vm_compute; try congruence; try (split; congruence).

Lemma isspace_byte_lower c : isspace (byte_lower c) = isspace c.
Proof. byte_cases c. Qed.

Lemma byte_lower_comma c : byte_lower c = ","%byte <-> c = ","%byte.
Proof. byte_cases c. Qed.

Lemma isdigit_byte_lower c : isdigit c = true -> byte_lower c = c.
Proof. byte_cases c. Qed.

Lemma isdigit_not_space c : isdigit c = true -> isspace c = false.
Proof. byte_cases c. Qed.

Lemma isdigit_not_comma c : isdigit c = true -> c <> ","%byte.
Proof. byte_cases c. Qed.



Lemma lstrip_lower b : lstrip (lower b) = lower (lstrip b).
Proof.
  induction b as [|c b IH]; simpl; [reflexivity|].
  rewrite isspace_byte_lower. destruct (isspace c); [exact IH | reflexivity].
Qed.

Lemma rev_lower b : rev (lower b) = lower (rev b).
Proof. unfold lower. symmetry. apply map_rev. Qed.

Lemma strip_lower b : strip (lower b) = lower (strip b).
Proof.
  unfold strip, rstrip.
  now rewrite lstrip_lower, rev_lower, lstrip_lower, rev_lower.
Qed.

Lemma split_nonempty sep b : split sep b <> [].
Proof.
  destruct b as [|c b]; simpl; [discriminate|].
  case_bool_decide; [discriminate|].
  destruct (split sep b); discriminate.
Qed.

Lemma split_lower b : split ","%byte (lower b) = map lower (split ","%byte b).
Proof.
  induction b as [|c b IH]; simpl; [reflexivity|].
  rewrite IH.
  destruct (bool_decide_reflect (c = ","%byte)) as [->|Hc].
  - reflexivity.
  - rewrite bool_decide_eq_false_2 by (rewrite byte_lower_comma; exact Hc).
    pose proof (split_nonempty ","%byte b) as Hne.
    destruct (split ","%byte b); [congruence | reflexivity].
Qed.

Lemma truthy_lower b : truthy (lower b) = truthy b.
Proof. destruct b; reflexivity. Qed.

End ByteFacts.

(** * Lemmas on [get_comma_header] *)

Lemma inner_loop_append (pieces : list bytes) (out : list bytes) :
  fold_left (fun out found_split_value =>
      let found_split_value := strip found_split_value in
      if truthy found_split_value then out ++ [found_split_value] else out)
    pieces out
  = out ++ List.filter truthy (map strip pieces).
Proof.
  revert out. induction pieces as [|p ps IH]; intros out; simpl.
  - now rewrite app_nil_r.
  - rewrite IH. destruct (truthy (strip p)); [|reflexivity].
    now rewrite <- app_assoc.
Qed.

Lemma outer_loop_append (name : bytes) (lowercase : bool) (hs : list header) (out : list bytes) :
  fold_left (fun out '(found_name, found_raw_value) =>
    let found_name := lower found_name in
    if bool_decide (found_name = name) then
      let found_raw_value := if lowercase then lower found_raw_value else found_raw_value in
      fold_left (fun out found_split_value =>
        let found_split_value := strip found_split_value in
        if truthy found_split_value then out ++ [found_split_value] else out)
        (split ","%byte found_raw_value) out
    else out) hs out
  = out ++ concat (map (fun h : header =>
             if bool_decide (lower (fst h) = name) then header_tokens lowercase (snd h) else [])
           hs).
Proof.
  revert out. induction hs as [|[n v] hs IH]; intros out; simpl.
  - now rewrite app_nil_r.
  - rewrite IH. case_bool_decide.
    + rewrite inner_loop_append. unfold header_tokens. now rewrite <- app_assoc.
    + reflexivity.
Qed.

Lemma get_comma_header_nil name lowercase : get_comma_header [] name lowercase = [].
Proof. reflexivity. Qed.

Lemma get_comma_header_cons n v hs name lowercase :
  get_comma_header ((n, v) :: hs) name lowercase
  = (if bool_decide (lower n = lower (bytesify name))
     then header_tokens lowercase v else [])
    ++ get_comma_header hs name lowercase.
Proof.
  unfold get_comma_header. rewrite !outer_loop_append. reflexivity.
Qed.

Lemma header_tokens_pieces lowercase v :
  header_tokens lowercase v = comma_pieces lowercase v.
Proof.
  unfold header_tokens, comma_pieces. destruct lowercase.
  - rewrite split_lower, map_map.
    induction (split ","%byte v) as [|p ps IH]; simpl; [reflexivity|].
    rewrite strip_lower, truthy_lower.
    destruct (truthy (strip p)); simpl; now rewrite IH.
  - now rewrite map_id.
Qed.

Example strip_ex : strip (B "  a b  ") = B "a b".
Proof. reflexivity. Qed.
Example split_ex : split ","%byte (B "a,,b,") = [B "a"; B ""; B "b"; B ""].
Proof. reflexivity. Qed.
Example int_ex : py_int (B " +1_000 ") = Some 1000 /\ py_int (B "1__0") = None
  /\ py_int (B "-007") = Some (-7) /\ py_int (B "") = None /\ py_int (B "12a") = None.
Proof. vm_compute. auto. Qed.
Example lt_ex : bytes_ltb (B "1.0") (B "1.1") = true /\ bytes_ltb (B "1.1") (B "1.1") = false
   /\ bytes_ltb (B "1") (B "1.1") = true /\ bytes_ltb (B "2") (B "1.1") = false.
Proof. vm_compute. auto. Qed.

Example norm_ex : normalize_and_validate [(Text "Host", Text " a "); (Raw (B "content-LENGTH"), Text "12")]
  = Ok [(B "Host", B " a "); (B "content-LENGTH", B "12")].
Proof. vm_compute. reflexivity. Qed.
Example gch_ex : get_comma_header [(B "X", B "a, B ,c"); (B "y", B "q"); (B "x", B ",,D")] (Text "X") true = [B "a"; B "b"; B "c"; B "d"].
Proof. vm_compute. reflexivity. Qed.
Example fh_ex : framing_headers [(B "Content-Length", B "5, 6")] = Ok (None, Some 5).
Proof. vm_compute. reflexivity. Qed.
Example sch_ex : set_comma_header 1%positive (Text "A") [B "9"] {[ 1%positive := [(B "A", B "1"); (B "B", B "2"); (B "a", B "3")] ]} = {[ 1%positive := [(B "B", B "2"); (B "A", B "9")] ]}.
Proof. vm_compute. reflexivity. Qed.

(** * The comma list of a header *)

(** C7: [get_comma_header] collects, over the headers whose name matches
    case-insensitively and in list order, the comma-separated pieces of the
    value, stripped, without the empty ones, lower-cased exactly when the
    flag is set; on [("X", "a, b ,c")] with case folding it returns
    ["a"; "b"; "c"]. *)
Theorem get_comma_header_refines_spec :
  (forall headers name lowercase,
     get_comma_header headers name lowercase = comma_list_spec headers name lowercase)
  /\ get_comma_header [(B "X", B "a, b ,c")] (Text "X") true = [B "a"; B "b"; B "c"].
Proof.
  split; [|reflexivity].
  intros hs name lowercase. unfold comma_list_spec.
  induction hs as [|[n v] hs IH]; [reflexivity|].
  rewrite get_comma_header_cons, IH. simpl. unfold name_matches at 2. simpl.
  case_bool_decide; simpl; [|reflexivity].
  now rewrite header_tokens_pieces.
Qed.

(** * Lemmas on [normalize_and_validate] *)

Lemma normalize_step_ok st n v st' :
  normalize_step st (n, v) = Ok st' ->
  strip (bytesify n) = bytesify n
  /\ new_headers st' = new_headers st ++ [(bytesify n, bytesify v)]
  /\ (if is_content_length (bytesify n)
      then saw_content_length st = false
           /\ _content_length_re (bytesify v) = true
           /\ saw_content_length st' = true
      else saw_content_length st' = saw_content_length st)
  /\ (if is_transfer_encoding (bytesify n)
      then saw_transfer_encoding st = false
           /\ lower (bytesify v) = B "chunked"
           /\ saw_transfer_encoding st' = true
      else saw_transfer_encoding st' = saw_transfer_encoding st).
Proof.
  unfold normalize_step, is_content_length, is_transfer_encoding, validate.
  destruct (bool_decide_reflect (strip (bytesify n) = bytesify n)) as [Hn|Hn];
    simpl; [|discriminate].
  destruct (bool_decide (lower (bytesify n) = B "content-length"));
    destruct (bool_decide (lower (bytesify n) = B "transfer-encoding"));
    destruct (saw_content_length st) eqn:Hcl;
    destruct (saw_transfer_encoding st) eqn:Hte;
    destruct (_content_length_re (bytesify v)) eqn:Hre;
    destruct (bool_decide_reflect (lower (bytesify v) = B "chunked")) as [Hv|Hv];
    simpl; intros H; try discriminate H; injection H as <-; simpl;
    repeat split; assumption || reflexivity.
Qed.

Lemma for_each_cons {S A} (body : S -> A -> result S) a l s :
  for_each body (a :: l) s
  = match body s a with Ok s' => for_each body l s' | Raise e => Raise e end.
Proof. reflexivity. Qed.

(** What a run of the loop that ends without an exception leaves in the
    loop variables. *)
Lemma for_each_normalize_new_headers raw : forall st st',
  for_each normalize_step raw st = Ok st' ->
  new_headers st' = new_headers st ++ map convert raw.
Proof.
  induction raw as [|[n v] raw IH]; intros st st' H.
  - injection H as <-. now rewrite app_nil_r.
  - rewrite for_each_cons in H.
    destruct (normalize_step st (n, v)) as [st1|e] eqn:Hstep; [|discriminate H].
    apply IH in H. apply normalize_step_ok in Hstep.
    destruct Hstep as (_ & Hnew & _). rewrite H, Hnew, <- app_assoc. reflexivity.
Qed.

Lemma normalize_and_validate_ok raw h :
  normalize_and_validate raw = Ok h ->
  exists st', for_each normalize_step raw (NormState [] false false) = Ok st'
              /\ h = map convert raw.
Proof.
  unfold normalize_and_validate. intros H.
  destruct (for_each normalize_step raw _) as [st'|e] eqn:Hloop; [|discriminate H].
  simpl in H. injection H as <-. exists st'. split; [reflexivity|].
  now rewrite (for_each_normalize_new_headers _ _ _ Hloop).
Qed.

(** C5: when [normalize_and_validate] succeeds, the result has one entry per
    input entry, in input order, and each name is the byte form of the input
    name, whatever the name is. *)
Theorem normalize_and_validate_keeps_entries raw h :
  normalize_and_validate raw = Ok h ->
  length h = length raw
  /\ map fst h = map (fun e => bytesify (fst e)) raw
  /\ forall i e, raw !! i = Some e -> exists v, h !! i = Some (bytesify (fst e), v).
Proof.
  intros H. apply normalize_and_validate_ok in H as (st' & _ & ->).
  split; [apply length_map|]. split.
  - rewrite map_map. reflexivity.
  - intros i e Hi. exists (bytesify (snd e)).
    rewrite list_lookup_fmap_Some. exists e. split; [reflexivity | assumption].
Qed.

Lemma normalize_and_validate_keeps_entries_witness :
  normalize_and_validate [(Text "Host", Text "a"); (Raw (B "X-y"), Text "b")]
    = Ok [(B "Host", B "a"); (B "X-y", B "b")]
  /\ length [(B "Host", B "a"); (B "X-y", B "b")] = 2%nat.
Proof.
  split; [reflexivity|].
  apply (normalize_and_validate_keeps_entries
           [(Text "Host", Text "a"); (Raw (B "X-y"), Text "b")]).
  reflexivity.
Defined.

(** * Lemmas on the framing headers of a normalized list *)

Lemma digits_to_end_inv r :
  digits_to_end r = true ->
  exists ds, all_digits ds /\ (r = ds \/ r = ds ++ [Byte.x0a]).
Proof.
  induction r as [|c r IH]; simpl.
  - intros _. exists []. split; [constructor | now left].
  - destruct (isdigit c) eqn:Hc.
    + intros H. destruct (IH H) as (ds & Hds & Hr).
      exists (c :: ds). split; [now constructor|].
      destruct Hr as [->| ->]; [now left | now right].
    + intros H. apply bool_decide_eq_true_1 in H. exists []. split; [constructor|].
      right. exact H.
Qed.

Lemma content_length_re_inv v :
  _content_length_re v = true ->
  exists ds, ds <> [] /\ all_digits ds /\ (v = ds \/ v = ds ++ [Byte.x0a]).
Proof.
  destruct v as [|c r]; simpl; [discriminate|].
  intros H. apply andb_true_iff in H as [Hc Hr].
  destruct (digits_to_end_inv r Hr) as (ds & Hds & Hrr).
  exists (c :: ds). split; [discriminate|]. split; [now constructor|].
  destruct Hrr as [->| ->]; [now left | now right].
Qed.

Lemma digits_to_end_digits ds : all_digits ds -> digits_to_end ds = true.
Proof. induction 1 as [|c ds Hc _ IH]; simpl; [reflexivity|]. now rewrite Hc. Qed.

Lemma content_length_re_digits ds :
  ds <> [] -> all_digits ds -> _content_length_re ds = true.
Proof.
  intros Hne Hds. destruct Hds as [|c ds Hc Hds]; [congruence|].
  simpl. now rewrite Hc, digits_to_end_digits.
Qed.

Lemma lower_digits ds : all_digits ds -> lower ds = ds.
Proof.
  induction 1 as [|c ds Hc _ IH]; simpl; [reflexivity|].
  now rewrite isdigit_byte_lower, IH.
Qed.

Lemma lstrip_digits ds t : ds <> [] -> all_digits ds -> lstrip (ds ++ t) = ds ++ t.
Proof.
  intros Hne Hds. destruct Hds as [|c ds Hc Hds]; [congruence|].
  simpl. now rewrite isdigit_not_space.
Qed.

Lemma strip_digits ds : ds <> [] -> all_digits ds -> strip ds = ds.
Proof.
  intros Hne Hds. unfold strip, rstrip.
  rewrite <- (app_nil_r ds) at 1. rewrite lstrip_digits, app_nil_r by assumption.
  rewrite <- (app_nil_r (rev ds)), lstrip_digits, app_nil_r.
  - apply rev_involutive.
  - intros H. apply Hne. rewrite <- (rev_involutive ds), H. reflexivity.
  - now apply Forall_rev.
Qed.

Lemma strip_digits_newline ds :
  ds <> [] -> all_digits ds -> strip (ds ++ [Byte.x0a]) = ds.
Proof.
  intros Hne Hds. unfold strip, rstrip.
  rewrite lstrip_digits by assumption.
  rewrite rev_app_distr. simpl.
  apply (strip_digits ds Hne) in Hds as Hs. unfold strip, rstrip in Hs.
  rewrite <- (app_nil_r ds) in Hs at 1. rewrite lstrip_digits, app_nil_r in Hs; assumption.
Qed.

Lemma split_digits_prefix ds t :
  all_digits ds ->
  split ","%byte (ds ++ t)
  = (ds ++ hd [] (split ","%byte t)) :: tl (split ","%byte t).
Proof.
  induction 1 as [|c ds Hc _ IH]; simpl.
  - pose proof (split_nonempty ","%byte t). now destruct (split ","%byte t).
  - rewrite bool_decide_eq_false_2 by now apply isdigit_not_comma.
    rewrite IH. reflexivity.
Qed.






(** The comma list of a [Content-Length] value that passed [validate]. *)
Lemma content_length_tokens v :
  _content_length_re v = true ->
  exists tok, header_tokens true v = [tok] /\ tok <> [] /\ all_digits tok.
Proof.
  intros H. destruct (content_length_re_inv v H) as (ds & Hne & Hds & Hv).
  exists ds. split; [|now split].
  unfold header_tokens.
  assert (Htruthy : truthy ds = true) by (destruct ds; [congruence | reflexivity]).
  destruct Hv as [->| ->].
  - rewrite lower_digits by assumption.
    rewrite <- (app_nil_r ds) at 1. rewrite split_digits_prefix by assumption.
    simpl. rewrite app_nil_r, strip_digits, Htruthy by assumption. reflexivity.
  - unfold lower. rewrite map_app. fold (lower ds). rewrite lower_digits by assumption.
    rewrite split_digits_prefix by assumption.
    simpl. rewrite strip_digits_newline, Htruthy by assumption. reflexivity.
Qed.

(** The comma list of a [Transfer-Encoding] value that passed the check. *)
Lemma transfer_encoding_tokens v :
  lower v = B "chunked" -> header_tokens true v = [B "chunked"].
Proof. unfold header_tokens. intros ->. reflexivity. Qed.

Lemma transfer_encodings_cons n v h :
  transfer_encodings_of ((n, v) :: h)
  = (if is_transfer_encoding n then header_tokens true v else [])
    ++ transfer_encodings_of h.
Proof. exact (get_comma_header_cons n v h (Text "Transfer-Encoding") true). Qed.

Lemma content_lengths_cons n v h :
  content_lengths_of ((n, v) :: h)
  = (if is_content_length n then header_tokens true v else [])
    ++ content_lengths_of h.
Proof. exact (get_comma_header_cons n v h (Text "Content-Length") true). Qed.

(** The framing headers that a successful run of the loop lets through:
    at most one [Transfer-Encoding], whose only token is [chunked], and at
    most one [Content-Length], whose only token is a non-empty run of
    digits. *)
Lemma for_each_normalize_framing raw : forall st st',
  for_each normalize_step raw st = Ok st' ->
  (saw_transfer_encoding st = true -> transfer_encodings_of (map convert raw) = [])
  /\ (transfer_encodings_of (map convert raw) = []
      \/ transfer_encodings_of (map convert raw) = [B "chunked"])
  /\ (saw_content_length st = true -> content_lengths_of (map convert raw) = [])
  /\ (content_lengths_of (map convert raw) = []
      \/ exists tok, content_lengths_of (map convert raw) = [tok]
                     /\ tok <> [] /\ all_digits tok).
Proof.
  induction raw as [|[n v] raw IH]; intros st st' H.
  - repeat split; auto.
  - rewrite for_each_cons in H.
    destruct (normalize_step st (n, v)) as [st1|e] eqn:Hstep; [|discriminate H].
    apply normalize_step_ok in Hstep as (_ & _ & Hcl & Hte).
    destruct (IH _ _ H) as (IHte1 & IHte2 & IHcl1 & IHcl2).
    cbn [map]. unfold convert at 1 3 5 7 9 11. cbn [fst snd].
    rewrite !transfer_encodings_cons, !content_lengths_cons.
    repeat split.
    + destruct (is_transfer_encoding (bytesify n)).
      * destruct Hte as (Hf & _). congruence.
      * intros Hs. apply IHte1. congruence.
    + destruct (is_transfer_encoding (bytesify n)).
      * destruct Hte as (_ & Hv & Hs). right.
        rewrite (transfer_encoding_tokens _ Hv), (IHte1 Hs). reflexivity.
      * exact IHte2.
    + destruct (is_content_length (bytesify n)).
      * destruct Hcl as (Hf & _). congruence.
      * intros Hs. apply IHcl1. congruence.
    + destruct (is_content_length (bytesify n)).
      * destruct Hcl as (_ & Hv & Hs). right.
        destruct (content_length_tokens _ Hv) as (tok & Htok & Hne & Hds).
        exists tok. rewrite Htok, (IHcl1 Hs). auto.
      * exact IHcl2.
Qed.

Lemma normalized_framing raw h :
  normalize_and_validate raw = Ok h ->
  (transfer_encodings_of h = [] \/ transfer_encodings_of h = [B "chunked"])
  /\ (content_lengths_of h = []
      \/ exists tok, content_lengths_of h = [tok] /\ tok <> [] /\ all_digits tok).
Proof.
  intros H. apply normalize_and_validate_ok in H as (st' & Hloop & ->).
  destruct (for_each_normalize_framing _ _ _ Hloop) as (_ & Hte & _ & Hcl).
  now split.
Qed.

(** C4: on a header list returned by [normalize_and_validate], a non-empty
    case-folded comma list of [Transfer-Encoding] is exactly [[b"chunked"]],
    so the assertion of [framing_headers] holds and [AssertionError] is not
    raised. *)
Theorem framing_headers_assertion_holds raw h :
  normalize_and_validate raw = Ok h ->
  (get_comma_header h (Text "Transfer-Encoding") true <> [] ->
   get_comma_header h (Text "Transfer-Encoding") true = [B "chunked"])
  /\ framing_headers h <> Raise AssertionError.
Proof.
  intros H. destruct (normalized_framing raw h H) as (Hte & _).
  fold (transfer_encodings_of h). split.
  - destruct Hte as [Hte|Hte]; [congruence | now intros _].
  - unfold framing_headers. fold (transfer_encodings_of h).
    destruct Hte as [-> | ->]; simpl.
    + destruct (get_comma_header h (Text "Content-Length") true) as [|first ?];
        [discriminate|]. destruct (py_int first); discriminate.
    + discriminate.
Qed.

Lemma framing_headers_assertion_holds_witness :
  get_comma_header [(B "transfer-encoding", B "Chunked")] (Text "Transfer-Encoding") true
    = [B "chunked"].
Proof.
  apply (framing_headers_assertion_holds
           [(Text "transfer-encoding", Raw (B "Chunked"))]
           [(B "transfer-encoding", B "Chunked")]);
    [reflexivity | discriminate].
Defined.




(** * Idempotence *)

Lemma all_digitsb_match v : all_digitsb v = true -> _content_length_re v = true.
Proof.
  unfold all_digitsb. intros H. apply andb_true_iff in H as [Hne Hall].
  apply content_length_re_digits.
  - destruct v; [discriminate Hne | discriminate].
  - clear Hne. induction v as [|c v IH]; [constructor|].
    simpl in Hall. apply andb_true_iff in Hall as [Hc Hall].
    constructor; [exact Hc | exact (IH Hall)].
Qed.

Lemma normalize_step_accepts st n v :
  strip n = n ->
  (is_content_length n = true ->
   saw_content_length st = false /\ _content_length_re v = true) ->
  (is_transfer_encoding n = true ->
   saw_transfer_encoding st = false /\ lower v = B "chunked") ->
  normalize_step st (Raw n, Raw v)
  = Ok (NormState (new_headers st ++ [(n, v)])
          (saw_content_length st || is_content_length n)
          (saw_transfer_encoding st || is_transfer_encoding n)).
Proof.
  intros Hn Hcl Hte.
  unfold normalize_step, validate, is_content_length, is_transfer_encoding in *.
  cbn [bytesify]. rewrite (bool_decide_eq_true_2 _ Hn). cbn [negb].
  destruct (bool_decide (lower n = B "content-length")).
  - destruct (Hcl eq_refl) as [-> ->].
    destruct (bool_decide (lower n = B "transfer-encoding")).
    + destruct (Hte eq_refl) as [-> Hv]. rewrite (bool_decide_eq_true_2 _ Hv). reflexivity.
    + simpl. now rewrite orb_false_r.
  - destruct (bool_decide (lower n = B "transfer-encoding")).
    + destruct (Hte eq_refl) as [-> Hv]. rewrite (bool_decide_eq_true_2 _ Hv).
      simpl. now rewrite orb_false_r.
    + simpl. now rewrite !orb_false_r.
Qed.

Lemma for_each_normalize_valid h : forall st,
  forallb (fun e : header => bool_decide (strip (fst e) = fst e)) h = true ->
  forallb (fun e : header => implb (is_content_length (fst e)) (all_digitsb (snd e))) h = true ->
  forallb (fun e : header =>
             implb (is_transfer_encoding (fst e)) (bool_decide (lower (snd e) = B "chunked"))) h = true ->
  (length (List.filter (fun e : header => is_content_length (fst e)) h)
     + Nat.b2n (saw_content_length st) <= 1)%nat ->
  (length (List.filter (fun e : header => is_transfer_encoding (fst e)) h)
     + Nat.b2n (saw_transfer_encoding st) <= 1)%nat ->
  exists st', for_each normalize_step (as_raw h) st = Ok st'
              /\ new_headers st' = new_headers st ++ h.
Proof.
  induction h as [|[n v] h IH]; intros st Hnames Hcl Hte Hncl Hnte.
  - exists st. split; [reflexivity | now rewrite app_nil_r].
  - cbn [forallb List.filter fst snd] in *.
    apply andb_true_iff in Hnames as [Hn Hnames].
    apply andb_true_iff in Hcl as [Hv1 Hcl].
    apply andb_true_iff in Hte as [Hv2 Hte].
    apply bool_decide_eq_true_1 in Hn.
    cbn [as_raw map]. rewrite for_each_cons.
    rewrite normalize_step_accepts.
    + destruct (IH (NormState (new_headers st ++ [(n, v)])
                      (saw_content_length st || is_content_length n)
                      (saw_transfer_encoding st || is_transfer_encoding n)))
        as (st' & Hloop & Hnew); try assumption.
      * cbn [saw_content_length].
        destruct (is_content_length n), (saw_content_length st);
          cbn [length Nat.b2n orb] in *; lia.
      * cbn [saw_transfer_encoding].
        destruct (is_transfer_encoding n), (saw_transfer_encoding st);
          cbn [length Nat.b2n orb] in *; lia.
      * exists st'. split; [exact Hloop|].
        rewrite Hnew. cbn [new_headers]. now rewrite <- app_assoc.
    + exact Hn.
    + intros Hc. rewrite Hc in *. cbn [implb length] in *. split.
      * destruct (saw_content_length st); [cbn [Nat.b2n] in Hncl; lia | reflexivity].
      * now apply all_digitsb_match.
    + intros Hc. rewrite Hc in *. cbn [implb length] in *. split.
      * destruct (saw_transfer_encoding st); [cbn [Nat.b2n] in Hnte; lia | reflexivity].
      * apply bool_decide_eq_true_1 in Hv2. exact Hv2.
Qed.

Lemma for_each_normalize_converted raw : forall st,
  for_each normalize_step (as_raw (map convert raw)) st
  = for_each normalize_step raw st.
Proof.
  induction raw as [|[n v] raw IH]; intros st; [reflexivity|].
  cbn [map as_raw convert fst snd]. fold (as_raw (map convert raw)).
  rewrite !for_each_cons.
  change (normalize_step st (Raw (bytesify n), Raw (bytesify v)))
    with (normalize_step st (n, v)).
  destruct (normalize_step st (n, v)); [apply IH | reflexivity].
Qed.

(** C6: on a valid list of byte pairs the normalizer returns the list as it
    is, and normalizing the result of any accepted call returns that result
    again. *)
Theorem normalize_and_validate_idempotent (h : list header) (raw : list raw_header) :
  (valid_headers h = true -> normalize_and_validate (as_raw h) = Ok h)
  /\ (normalize_and_validate raw = Ok h -> normalize_and_validate (as_raw h) = Ok h).
Proof.
  split.
  - unfold valid_headers. intros H.
    apply andb_true_iff in H as [H Hte].
    apply andb_true_iff in H as [H Hnte].
    apply andb_true_iff in H as [H Hcl].
    apply andb_true_iff in H as [Hnames Hncl].
    apply Nat.leb_le in Hncl, Hnte.
    destruct (for_each_normalize_valid h (NormState [] false false))
      as (st' & Hloop & Hnew); try assumption.
    + cbn [saw_content_length Nat.b2n]. lia.
    + cbn [saw_transfer_encoding Nat.b2n]. lia.
    + unfold normalize_and_validate. rewrite Hloop. simpl. now rewrite Hnew.
  - intros H. pose proof H as H'.
    apply normalize_and_validate_ok in H' as (st' & _ & ->).
    unfold normalize_and_validate in *.
    now rewrite for_each_normalize_converted.
Qed.

Lemma normalize_and_validate_idempotent_witness :
  normalize_and_validate
    (as_raw [(B "Host", B " a"); (B "content-length", B "12"); (B "Transfer-Encoding", B "Chunked")])
  = Ok [(B "Host", B " a"); (B "content-length", B "12"); (B "Transfer-Encoding", B "Chunked")]
  /\ normalize_and_validate (as_raw [(B "Host", B "a")]) = Ok [(B "Host", B "a")].
Proof.
  split.
  - apply (proj1 (normalize_and_validate_idempotent
       [(B "Host", B " a"); (B "content-length", B "12"); (B "Transfer-Encoding", B "Chunked")]
       [])).
    reflexivity.
  - apply (proj2 (normalize_and_validate_idempotent
       [(B "Host", B "a")] [(Text "Host", Text "a")])).
    reflexivity.
Defined.

(** * set_comma_header *)

Lemma keep_loop_append (name_lower : bytes) (hs acc : list header) :
  fold_left (fun new_headers '(found_name, found_raw_value) =>
      if negb (bool_decide (lower found_name = name_lower))
      then new_headers ++ [(found_name, found_raw_value)]
      else new_headers) hs acc
  = acc ++ List.filter (fun h : header => negb (bool_decide (lower (fst h) = name_lower))) hs.
Proof.
  revert acc. induction hs as [|[n v] hs IH]; intros acc; simpl.
  - now rewrite app_nil_r.
  - rewrite IH. destruct (negb _); [now rewrite <- app_assoc | reflexivity].
Qed.

Lemma append_loop_append (name : bytes) (vs : list bytes) (acc : list header) :
  fold_left (fun new_headers new_value => new_headers ++ [(name, new_value)]) vs acc
  = acc ++ map (fun v => (name, v)) vs.
Proof.
  revert acc. induction vs as [|v vs IH]; intros acc; simpl.
  - now rewrite app_nil_r.
  - now rewrite IH, <- app_assoc.
Qed.

(** C8: [set_comma_header] leaves in the list object the entries whose name
    does not match, unchanged and in their order, followed by one entry
    [(name, v)] per new value; no other list of the store changes; on
    [("A","1"); ("B","2"); ("A","3")] with name [A] and values ["9"] the list
    becomes [("B","2"); ("A","9")]. *)
Theorem set_comma_header_rewrites (σ : store) (l : loc) (hs : list header)
    (name : field_data) (new_values : list bytes) :
  σ !! l = Some hs ->
  set_comma_header l name new_values σ
  = <[l := List.filter (fun h => negb (name_matches (bytesify name) h)) hs
           ++ map (fun v => (bytesify name, v)) new_values]> σ
  /\ (forall l', l' <> l -> set_comma_header l name new_values σ !! l' = σ !! l')
  /\ (forall e, In e hs -> name_matches (bytesify name) e = false ->
      exists hs', set_comma_header l name new_values σ !! l = Some hs' /\ In e hs')
  /\ set_comma_header 1%positive (Text "A") [B "9"]
       {[ 1%positive := [(B "A", B "1"); (B "B", B "2"); (B "A", B "3")] ]}
     = {[ 1%positive := [(B "B", B "2"); (B "A", B "9")] ]}.
Proof.
  intros Hl.
  assert (Heq : set_comma_header l name new_values σ
    = <[l := List.filter (fun h => negb (name_matches (bytesify name) h)) hs
             ++ map (fun v => (bytesify name, v)) new_values]> σ).
  { unfold set_comma_header. rewrite lookup_total_alt, Hl. cbn [default from_option].
    rewrite keep_loop_append, append_loop_append. reflexivity. }
  split; [exact Heq|]. rewrite Heq. split; [|split].
  - intros l' Hne. now rewrite lookup_insert_ne.
  - intros e Hin Hno. eexists. split; [apply lookup_insert_eq|].
    apply in_or_app. left. apply filter_In. split; [exact Hin|]. now rewrite Hno.
  - vm_compute. reflexivity.
Qed.

Lemma set_comma_header_rewrites_witness :
  set_comma_header 2%positive (Raw (B "connection")) [B "close"]
    {[ 2%positive := [(B "Connection", B "keep-alive"); (B "Host", B "a")];
       3%positive := [(B "Connection", B "x")] ]} !! 3%positive
  = ({[ 2%positive := [(B "Connection", B "keep-alive"); (B "Host", B "a")];
        3%positive := [(B "Connection", B "x")] ]} : store) !! 3%positive.
Proof.
  apply (set_comma_header_rewrites
           {[ 2%positive := [(B "Connection", B "keep-alive"); (B "Host", B "a")];
              3%positive := [(B "Connection", B "x")] ]}
           2%positive [(B "Connection", B "keep-alive"); (B "Host", B "a")]
           (Raw (B "connection")) [B "close"]).
  - vm_compute. reflexivity.
  - discriminate.
Defined.

(** * has_expect_100_continue *)

Lemma bytes_in_In x l : bytes_in x l = true <-> In x l.
Proof.
  unfold bytes_in. rewrite existsb_exists. split.
  - intros (y & Hy & Heq). apply bool_decide_eq_true_1 in Heq. now subst.
  - intros H. exists x. split; [exact H | now apply bool_decide_eq_true_2].
Qed.

Lemma to_N_inj x y : Byte.to_N x = Byte.to_N y -> x = y.
Proof.
  intros H. pose proof (Byte.of_to_N x) as Hx. rewrite H, Byte.of_to_N in Hx.
  congruence.
Qed.

(** [<] on bytes is the lexicographic order. *)
Lemma bytes_ltb_lex a : forall b, bytes_ltb a b = true <-> lex_lt a b.
Proof.
  induction a as [|x a IH]; intros [|y b]; simpl.
  - split; [discriminate | inversion 1].
  - split; [constructor | reflexivity].
  - split; [discriminate | inversion 1].
  - destruct (N.ltb_spec (Byte.to_N x) (Byte.to_N y)) as [Hlt|Hge].
    + split; [now constructor | reflexivity].
    + destruct (N.ltb_spec (Byte.to_N y) (Byte.to_N x)) as [Hgt|Hle].
      * split; [discriminate|]. inversion 1; subst; lia.
      * assert (x = y) as -> by (apply to_N_inj; lia).
        rewrite IH. split; [now constructor|]. inversion 1; subst; [lia | assumption].
Qed.

(** C9: [has_expect_100_continue] is [False] for a version below [b"1.1"] in
    the order of bytes, whatever the headers; otherwise it is [True] exactly
    when the token [b"100-continue"] is among the comma list of [Expect]
    taken without case folding, so [Expect: 100-Continue] gives [False]
    under version 1.1. *)
Theorem has_expect_100_continue_spec (request : Request) :
  (bytes_ltb (http_version request) (B "1.1") = true ->
   has_expect_100_continue request = false)
  /\ (bytes_ltb (http_version request) (B "1.1") = false ->
      (has_expect_100_continue request = true
       <-> In (B "100-continue")
              (get_comma_header (headers request) (Text "Expect") false)))
  /\ has_expect_100_continue
       {| http_version := B "1.1"; headers := [(B "Expect", B "100-Continue")] |} = false
  /\ has_expect_100_continue
       {| http_version := B "1.1"; headers := [(B "Expect", B "100-continue")] |} = true.
Proof.
  unfold has_expect_100_continue at 1 2. split; [|split; [|split]].
  - intros ->. reflexivity.
  - intros ->. apply bytes_in_In.
  - reflexivity.
  - reflexivity.
Qed.

Lemma has_expect_100_continue_spec_witness :
  has_expect_100_continue
    {| http_version := B "1.0"; headers := [(B "Expect", B "100-continue")] |} = false
  /\ In (B "100-continue")
        (get_comma_header [(B "expect", B "x, 100-continue")] (Text "Expect") false).
Proof.
  split.
  - apply (proj1 (has_expect_100_continue_spec
             {| http_version := B "1.0"; headers := [(B "Expect", B "100-continue")] |})).
    reflexivity.
  - apply (proj1 (proj2 (has_expect_100_continue_spec
             {| http_version := B "1.1"; headers := [(B "expect", B "x, 100-continue")] |})));
      reflexivity.
Defined.

(** * framing_headers on arbitrary lists *)



(** * Values with surrounding whitespace *)

(** C2: the code validates the value as it came in, not stripped, so a lone
    [Content-Length] whose digits have whitespace around them, and a lone
    [Transfer-Encoding: chunked] with such whitespace, raise a
    [ProtocolError] although no entry is a violation in the sense of the
    specification. *)
Theorem normalize_and_validate_rejects_padded_values :
  normalize_and_validate [(Raw (B "Content-Length"), Raw (B " 5 "))]
    = Raise (ProtocolError BadContentLength)
  /\ spec_rejects false false [(Raw (B "Content-Length"), Raw (B " 5 "))] = false
  /\ normalize_and_validate [(Raw (B "Transfer-Encoding"), Raw (B "chunked "))]
    = Raise (ProtocolError OnlyChunkedSupported)
  /\ spec_rejects false false [(Raw (B "Transfer-Encoding"), Raw (B "chunked "))] = false.
Proof. repeat split; reflexivity. Qed.

(** C3: the code stores the value as it came in: the whitespace around it
    is still there in the returned list. *)
Theorem normalize_and_validate_keeps_value_whitespace :
  normalize_and_validate [(Raw (B "Host"), Raw (B " example.com "))]
    = Ok [(B "Host", B " example.com ")]
  /\ strip (B " example.com ") = B "example.com"
  /\ B " example.com " <> B "example.com".
Proof. repeat split; try reflexivity. discriminate. Qed.

(** * Further properties of the comma list *)

Lemma byte_lower_idem c : byte_lower (byte_lower c) = byte_lower c.
Proof. destruct c; reflexivity. Qed.

Lemma lower_idem b : lower (lower b) = lower b.
Proof.
  unfold lower. rewrite map_map. apply map_ext. intros c. apply byte_lower_idem.
Qed.

Lemma lstrip_idem b : lstrip (lstrip b) = lstrip b.
Proof.
  induction b as [|c b IH]; [reflexivity|]. simpl.
  destruct (isspace c) eqn:Hc; [exact IH|]. simpl. now rewrite Hc.
Qed.

Lemma lstrip_snoc l c : isspace c = false -> lstrip (l ++ [c]) = lstrip l ++ [c].
Proof.
  intros Hc. induction l as [|x l IH]; simpl.
  - now rewrite Hc.
  - destruct (isspace x); [exact IH | reflexivity].
Qed.

Lemma rstrip_cons c r : isspace c = false -> rstrip (c :: r) = c :: rstrip r.
Proof.
  intros Hc. unfold rstrip. simpl. rewrite lstrip_snoc by exact Hc.
  rewrite rev_app_distr. reflexivity.
Qed.

Lemma rstrip_idem b : rstrip (rstrip b) = rstrip b.
Proof. unfold rstrip. now rewrite rev_involutive, lstrip_idem. Qed.

Lemma strip_idem b : strip (strip b) = strip b.
Proof.
  unfold strip.
  assert (H : lstrip (rstrip (lstrip b)) = rstrip (lstrip b)).
  { pose proof (lstrip_idem b) as Hi.
    destruct (lstrip b) as [|c r] eqn:Hb; [reflexivity|].
    simpl in Hi. destruct (isspace c) eqn:Hc.
    - exfalso. clear Hi. revert c r Hb Hc.
      induction b as [|x b IH]; intros c r Hb Hc; [discriminate|].
      simpl in Hb. destruct (isspace x) eqn:Hx; [now apply (IH c r)|].
      injection Hb as -> ->. congruence.
    - rewrite rstrip_cons by exact Hc. simpl. now rewrite Hc. }
  rewrite H. apply rstrip_idem.
Qed.

Lemma In_lstrip c b : In c (lstrip b) -> In c b.
Proof.
  induction b as [|x b IH]; simpl; [auto|].
  destruct (isspace x); [right; auto | auto].
Qed.

Lemma In_strip c b : In c (strip b) -> In c b.
Proof.
  unfold strip, rstrip. intros H.
  apply In_lstrip. apply in_rev. apply In_lstrip. now apply in_rev in H.
Qed.

Lemma split_pieces_no_sep sep b : forall p, In p (split sep b) -> ~ In sep p.
Proof.
  induction b as [|c b IH]; simpl; intros p Hp.
  - destruct Hp as [<-|[]]. auto.
  - destruct (bool_decide_reflect (c = sep)) as [->|Hc].
    + destruct Hp as [<-|Hp]; [auto | now apply IH].
    + destruct (split sep b) as [|q qs] eqn:Hs.
      * destruct Hp as [<-|[]]. intros [H|[]]. congruence.
      * destruct Hp as [<-|Hp].
        -- intros [H|H]; [congruence|]. apply (IH q); [now left | exact H].
        -- apply IH. now right.
Qed.

Lemma split_no_sep sep b : ~ In sep b -> split sep b = [b].
Proof.
  induction b as [|c b IH]; intros H; [reflexivity|]. simpl.
  rewrite bool_decide_eq_false_2 by (intros ->; apply H; now left).
  rewrite IH by (intros Hb; apply H; now right). reflexivity.
Qed.

Lemma header_tokens_clean lowercase v tok :
  In tok (header_tokens lowercase v) ->
  tok <> [] /\ strip tok = tok /\ ~ In ","%byte tok.
Proof.
  unfold header_tokens. intros H. apply filter_In in H as [H Ht].
  apply in_map_iff in H as (p & <- & Hp).
  split; [|split].
  - destruct (strip p); [discriminate Ht | discriminate].
  - apply strip_idem.
  - intros Hc. apply In_strip in Hc. exact (split_pieces_no_sep _ _ _ Hp Hc).
Qed.

Lemma header_tokens_lower v :
  header_tokens true v = map lower (header_tokens false v).
Proof.
  rewrite !header_tokens_pieces. unfold comma_pieces. now rewrite map_id.
Qed.

Lemma clean_token_inv t :
  clean_token t = true -> truthy t = true /\ strip t = t /\ ~ In ","%byte t.
Proof.
  unfold clean_token. intros H.
  apply andb_true_iff in H as [H Hc]. apply andb_true_iff in H as [Ht Hs].
  split; [exact Ht|]. split; [now apply bool_decide_eq_true_1 in Hs|].
  intros Hin. apply negb_true_iff in Hc.
  assert (existsb (fun c => bool_decide (c = ","%byte)) t = true); [|congruence].
  apply existsb_exists. exists ","%byte. split; [exact Hin | now apply bool_decide_eq_true_2].
Qed.

Lemma header_tokens_clean_token t :
  clean_token t = true -> header_tokens false t = [t].
Proof.
  intros H. apply clean_token_inv in H as (Ht & Hs & Hc).
  unfold header_tokens. rewrite split_no_sep by exact Hc. simpl.
  now rewrite Hs, Ht.
Qed.

Lemma get_comma_header_app h1 h2 name lowercase :
  get_comma_header (h1 ++ h2) name lowercase
  = get_comma_header h1 name lowercase ++ get_comma_header h2 name lowercase.
Proof.
  induction h1 as [|[n v] h1 IH]; [reflexivity|].
  rewrite <- app_comm_cons, !get_comma_header_cons, IH. now rewrite app_assoc.
Qed.

Lemma get_comma_header_no_match h name lowercase :
  Forall (fun e : header => lower (fst e) <> lower (bytesify name)) h ->
  get_comma_header h name lowercase = [].
Proof.
  induction 1 as [|[n v] h Hne _ IH]; [reflexivity|].
  rewrite get_comma_header_cons, IH. simpl in Hne.
  now rewrite bool_decide_eq_false_2.
Qed.

Lemma get_comma_header_lower_map h name :
  get_comma_header h name true = map lower (get_comma_header h name false).
Proof.
  induction h as [|[n v] h IH]; [reflexivity|].
  rewrite !get_comma_header_cons, IH, map_app.
  case_bool_decide; [|reflexivity]. now rewrite header_tokens_lower.
Qed.

(** X1: every token that [get_comma_header] returns is non-empty, has no
    whitespace around it and holds no comma. *)
Theorem get_comma_header_tokens_clean (h : list header) (name : field_data)
    (lowercase : bool) (tok : bytes) :
  In tok (get_comma_header h name lowercase) ->
  tok <> [] /\ strip tok = tok /\ ~ In ","%byte tok.
Proof.
  induction h as [|[n v] h IH]; [intros []|].
  rewrite get_comma_header_cons. intros H. apply in_app_or in H as [H|H].
  - case_bool_decide; [|destruct H]. exact (header_tokens_clean _ _ _ H).
  - exact (IH H).
Qed.

Lemma get_comma_header_tokens_clean_witness :
  B "b" <> [] /\ strip (B "b") = B "b" /\ ~ In ","%byte (B "b").
Proof.
  apply (get_comma_header_tokens_clean
           [(B "x", B " a ,, b ,")] (Text "X") true (B "b")).
  vm_compute. auto.
Defined.

(** X2: with [lowercase=True] the result is the result with
    [lowercase=False], each token lower-cased: folding the case of the whole
    value before the split changes neither the split nor the strip. *)
Theorem get_comma_header_lowercase (h : list header) (name : field_data) :
  get_comma_header h name true = map lower (get_comma_header h name false).
Proof. apply get_comma_header_lower_map. Qed.

(** X3: the comma list of a concatenation of header lists is the
    concatenation of the comma lists. *)
Theorem get_comma_header_concat (h1 h2 : list header) (name : field_data)
    (lowercase : bool) :
  get_comma_header (h1 ++ h2) name lowercase
  = get_comma_header h1 name lowercase ++ get_comma_header h2 name lowercase.
Proof. apply get_comma_header_app. Qed.

(** X4: when no header name matches, case-insensitively, the result is the
    empty list; nothing is raised for a missing header. *)
Theorem get_comma_header_absent (h : list header) (name : field_data)
    (lowercase : bool) :
  Forall (fun e : header => lower (fst e) <> lower (bytesify name)) h ->
  get_comma_header h name lowercase = [].
Proof. apply get_comma_header_no_match. Qed.

Lemma get_comma_header_absent_witness :
  get_comma_header [(B "Host", B "a,b"); (B "Expect", B "x")] (Text "Connection") true = [].
Proof.
  apply (get_comma_header_absent [(B "Host", B "a,b"); (B "Expect", B "x")]
           (Text "Connection") true).
  repeat constructor; discriminate.
Defined.

(** * Further properties of [normalize_and_validate] *)

Lemma for_each_app {S A} (body : S -> A -> result S) l1 l2 s :
  for_each body (l1 ++ l2) s
  = match for_each body l1 s with
    | Ok s' => for_each body l2 s'
    | Raise e => Raise e
    end.
Proof.
  revert s. induction l1 as [|a l1 IH]; intros s; [reflexivity|].
  rewrite <- app_comm_cons, !for_each_cons.
  destruct (body s a); [apply IH | reflexivity].
Qed.

Lemma normalize_step_raises st e x :
  normalize_step st e = Raise x -> exists pe, x = ProtocolError pe.
Proof.
  destruct e as [n v]. unfold normalize_step, validate.
  destruct (negb _); [intros [= <-]; eauto|].
  destruct (bool_decide (lower (bytesify n) = B "content-length"));
    destruct (bool_decide (lower (bytesify n) = B "transfer-encoding"));
    destruct (saw_content_length st); destruct (saw_transfer_encoding st);
    destruct (_content_length_re (bytesify v));
    destruct (negb (bool_decide (lower (bytesify v) = B "chunked")));
    simpl; intros H; try discriminate H; injection H as <-; eauto.
Qed.

Lemma for_each_normalize_raises raw : forall st x,
  for_each normalize_step raw st = Raise x -> exists pe, x = ProtocolError pe.
Proof.
  induction raw as [|e raw IH]; intros st x H; [discriminate H|].
  rewrite for_each_cons in H.
  destruct (normalize_step st e) as [st1|y] eqn:Hstep.
  - exact (IH _ _ H).
  - injection H as <-. exact (normalize_step_raises _ _ _ Hstep).
Qed.

(** The two flags after a run of the loop: set before, or set by an entry
    of that name. *)
Lemma for_each_normalize_flags raw : forall st st',
  for_each normalize_step raw st = Ok st' ->
  saw_content_length st'
    = saw_content_length st
      || existsb (fun e : header => is_content_length (fst e)) (map convert raw)
  /\ saw_transfer_encoding st'
    = saw_transfer_encoding st
      || existsb (fun e : header => is_transfer_encoding (fst e)) (map convert raw).
Proof.
  induction raw as [|[n v] raw IH]; intros st st' H.
  - injection H as <-. simpl. now rewrite !orb_false_r.
  - rewrite for_each_cons in H.
    destruct (normalize_step st (n, v)) as [st1|y] eqn:Hstep; [|discriminate H].
    apply normalize_step_ok in Hstep as (_ & _ & Hcl & Hte).
    destruct (IH _ _ H) as [-> ->]. cbn [map existsb convert fst snd].
    split.
    + destruct (is_content_length (bytesify n)).
      * destruct Hcl as (-> & _ & ->). reflexivity.
      * rewrite Hcl. reflexivity.
    + destruct (is_transfer_encoding (bytesify n)).
      * destruct Hte as (-> & _ & ->). reflexivity.
      * rewrite Hte. reflexivity.
Qed.

Lemma for_each_normalize_well_formed h : forall st,
  forallb (fun e : header => bool_decide (strip (fst e) = fst e)) h = true ->
  forallb (fun e : header =>
             implb (is_content_length (fst e)) (_content_length_re (snd e))) h = true ->
  forallb (fun e : header =>
             implb (is_transfer_encoding (fst e)) (bool_decide (lower (snd e) = B "chunked"))) h = true ->
  (length (List.filter (fun e : header => is_content_length (fst e)) h)
     + Nat.b2n (saw_content_length st) <= 1)%nat ->
  (length (List.filter (fun e : header => is_transfer_encoding (fst e)) h)
     + Nat.b2n (saw_transfer_encoding st) <= 1)%nat ->
  exists st', for_each normalize_step (as_raw h) st = Ok st'
              /\ new_headers st' = new_headers st ++ h.
Proof.
  induction h as [|[n v] h IH]; intros st Hnames Hcl Hte Hncl Hnte.
  - exists st. split; [reflexivity | now rewrite app_nil_r].
  - cbn [forallb List.filter fst snd] in *.
    apply andb_true_iff in Hnames as [Hn Hnames].
    apply andb_true_iff in Hcl as [Hv1 Hcl].
    apply andb_true_iff in Hte as [Hv2 Hte].
    apply bool_decide_eq_true_1 in Hn.
    cbn [as_raw map]. rewrite for_each_cons.
    rewrite normalize_step_accepts.
    + destruct (IH (NormState (new_headers st ++ [(n, v)])
                      (saw_content_length st || is_content_length n)
                      (saw_transfer_encoding st || is_transfer_encoding n)))
        as (st' & Hloop & Hnew); try assumption.
      * cbn [saw_content_length].
        destruct (is_content_length n), (saw_content_length st);
          cbn [length Nat.b2n orb] in *; lia.
      * cbn [saw_transfer_encoding].
        destruct (is_transfer_encoding n), (saw_transfer_encoding st);
          cbn [length Nat.b2n orb] in *; lia.
      * exists st'. split; [exact Hloop|].
        rewrite Hnew. cbn [new_headers]. now rewrite <- app_assoc.
    + exact Hn.
    + intros Hc. rewrite Hc in *. cbn [implb length] in *. split.
      * destruct (saw_content_length st); [cbn [Nat.b2n] in Hncl; lia | reflexivity].
      * exact Hv1.
    + intros Hc. rewrite Hc in *. cbn [implb length] in *. split.
      * destruct (saw_transfer_encoding st); [cbn [Nat.b2n] in Hnte; lia | reflexivity].
      * apply bool_decide_eq_true_1 in Hv2. exact Hv2.
Qed.

Lemma for_each_normalize_ok_inv h : forall st st',
  for_each normalize_step (as_raw h) st = Ok st' ->
  forallb (fun e : header => bool_decide (strip (fst e) = fst e)) h = true
  /\ forallb (fun e : header =>
                implb (is_content_length (fst e)) (_content_length_re (snd e))) h = true
  /\ forallb (fun e : header =>
                implb (is_transfer_encoding (fst e)) (bool_decide (lower (snd e) = B "chunked"))) h = true
  /\ (length (List.filter (fun e : header => is_content_length (fst e)) h)
        + Nat.b2n (saw_content_length st) <= 1)%nat
  /\ (length (List.filter (fun e : header => is_transfer_encoding (fst e)) h)
        + Nat.b2n (saw_transfer_encoding st) <= 1)%nat.
Proof.
  induction h as [|[n v] h IH]; intros st st' H.
  - cbn. repeat split; destruct (saw_content_length st), (saw_transfer_encoding st);
      cbn; lia.
  - cbn [as_raw map] in H. rewrite for_each_cons in H.
    destruct (normalize_step st (Raw n, Raw v)) as [st1|y] eqn:Hstep; [|discriminate H].
    apply normalize_step_ok in Hstep as (Hn & _ & Hcl & Hte). cbn [bytesify] in *.
    destruct (IH _ _ H) as (IH1 & IH2 & IH3 & IH4 & IH5).
    cbn [forallb List.filter fst snd]. rewrite IH1, IH2, IH3.
    rewrite (bool_decide_eq_true_2 _ Hn).
    destruct (is_content_length n), (is_transfer_encoding n);
      repeat match goal with
             | H : _ /\ _ |- _ => destruct H
             end;
      repeat match goal with
             | H : saw_content_length _ = _ |- _ => rewrite H in *
             | H : saw_transfer_encoding _ = _ |- _ => rewrite H in *
             | H : _content_length_re _ = _ |- _ => rewrite H
             | H : lower v = _ |- _ => rewrite (bool_decide_eq_true_2 _ H)
             end;
      cbn [implb andb length Nat.b2n] in *; repeat split; lia.
Qed.

Lemma well_formed_iff_loop h :
  well_formed h = true
  <-> exists st', for_each normalize_step (as_raw h) (NormState [] false false) = Ok st'.
Proof.
  unfold well_formed. split.
  - intros H.
    apply andb_true_iff in H as [H Hte].
    apply andb_true_iff in H as [H Hnte].
    apply andb_true_iff in H as [H Hcl].
    apply andb_true_iff in H as [Hnames Hncl].
    apply Nat.leb_le in Hncl, Hnte.
    destruct (for_each_normalize_well_formed h (NormState [] false false))
      as (st' & Hloop & _); try assumption.
    + cbn [saw_content_length Nat.b2n]. lia.
    + cbn [saw_transfer_encoding Nat.b2n]. lia.
    + now exists st'.
  - intros (st' & H).
    apply for_each_normalize_ok_inv in H as (H1 & H2 & H3 & H4 & H5).
    cbn [saw_content_length saw_transfer_encoding Nat.b2n] in *.
    rewrite H1, H2, H3. cbn [andb].
    rewrite !andb_true_r. apply andb_true_iff. split; apply Nat.leb_le; lia.
Qed.

(** X5: [normalize_and_validate] returns the byte form of its input exactly
    when that list is well formed: no name with surrounding whitespace, at
    most one [Content-Length], with a value matching the pattern, at most one
    [Transfer-Encoding], with a value that lower-cases to [chunked].  On
    every other input it raises a [ProtocolError] and nothing else. *)
Theorem normalize_and_validate_accepts (raw : list raw_header) :
  if well_formed (map convert raw)
  then normalize_and_validate raw = Ok (map convert raw)
  else exists e, normalize_and_validate raw = Raise (ProtocolError e).
Proof.
  destruct (well_formed (map convert raw)) eqn:Hwf.
  - apply well_formed_iff_loop in Hwf as (st' & Hloop).
    rewrite for_each_normalize_converted in Hloop.
    unfold normalize_and_validate. rewrite Hloop. simpl.
    now rewrite (for_each_normalize_new_headers _ _ _ Hloop).
  - unfold normalize_and_validate.
    destruct (for_each normalize_step raw _) as [st'|x] eqn:Hloop.
    + rewrite <- for_each_normalize_converted in Hloop.
      assert (well_formed (map convert raw) = true); [|congruence].
      apply well_formed_iff_loop. now exists st'.
    + destruct (for_each_normalize_raises _ _ _ Hloop) as (pe & ->).
      exists pe. reflexivity.
Qed.

(** X6: an exception of [normalize_and_validate] is settled by the entries
    up to the failing one: whatever headers follow, the call raises the same
    exception. *)
Theorem normalize_and_validate_error_stable (raw more : list raw_header) (x : exn) :
  normalize_and_validate raw = Raise x ->
  normalize_and_validate (raw ++ more) = Raise x.
Proof.
  unfold normalize_and_validate. rewrite for_each_app.
  destruct (for_each normalize_step raw _); [discriminate | auto].
Qed.

Lemma normalize_and_validate_error_stable_witness :
  normalize_and_validate
    ([(Text "Host", Text "a"); (Text "Host ", Text "b")] ++ [(Text "Content-Length", Text "x")])
  = Raise (ProtocolError (IllegalHeaderName (B "Host "))).
Proof.
  apply (normalize_and_validate_error_stable
           [(Text "Host", Text "a"); (Text "Host ", Text "b")]
           [(Text "Content-Length", Text "x")]).
  reflexivity.
Defined.

(** X7: when a header list is accepted, each of its prefixes is accepted,
    with the matching prefix of the result. *)
Theorem normalize_and_validate_prefix (raw more : list raw_header) (h : list header) :
  normalize_and_validate (raw ++ more) = Ok h ->
  normalize_and_validate raw = Ok (firstn (length raw) h).
Proof.
  intros H. pose proof H as H'.
  apply normalize_and_validate_ok in H' as (_ & _ & ->).
  unfold normalize_and_validate in *. rewrite for_each_app in H.
  destruct (for_each normalize_step raw _) as [st1|y] eqn:Hloop; [|discriminate H].
  simpl. rewrite (for_each_normalize_new_headers _ _ _ Hloop). simpl.
  rewrite map_app, <- (length_map convert raw), firstn_app, Nat.sub_diag.
  rewrite firstn_all. simpl. now rewrite app_nil_r.
Qed.

Lemma normalize_and_validate_prefix_witness :
  normalize_and_validate [(Text "Host", Text "a")] = Ok [(B "Host", B "a")].
Proof.
  apply (normalize_and_validate_prefix [(Text "Host", Text "a")]
           [(Text "Content-Length", Text "3")]
           [(B "Host", B "a"); (B "Content-Length", B "3")]).
  reflexivity.
Defined.

(** X8: once a [Content-Length] header was accepted, a further header of
    that name (in any case, with a well-formed name) raises "multiple
    Content-Length headers", whatever its value and whatever follows: the
    duplicate check comes before the value is validated. *)
Theorem normalize_and_validate_second_content_length
    (raw more : list raw_header) (h : list header) (n v : field_data) :
  normalize_and_validate raw = Ok h ->
  existsb (fun e : header => is_content_length (fst e)) h = true ->
  strip (bytesify n) = bytesify n ->
  is_content_length (bytesify n) = true ->
  normalize_and_validate (raw ++ (n, v) :: more)
  = Raise (ProtocolError MultipleContentLength).
Proof.
  intros H Hex Hn Hcl. pose proof H as H'.
  apply normalize_and_validate_ok in H' as (st' & Hloop & ->).
  unfold normalize_and_validate. rewrite for_each_app, Hloop, for_each_cons.
  apply for_each_normalize_flags in Hloop as [Hflag _].
  rewrite Hex in Hflag. simpl in Hflag.
  unfold normalize_step. unfold is_content_length in Hcl.
  rewrite (bool_decide_eq_true_2 _ Hn), Hcl, Hflag. reflexivity.
Qed.

Lemma normalize_and_validate_second_content_length_witness :
  normalize_and_validate
    ([(Text "Content-Length", Text "5")] ++ [(Text "content-length", Text "5"); (Text "A", Text "b")])
  = Raise (ProtocolError MultipleContentLength).
Proof.
  apply (normalize_and_validate_second_content_length
           [(Text "Content-Length", Text "5")] [(Text "A", Text "b")]
           [(B "Content-Length", B "5")] (Text "content-length") (Text "5"));
    reflexivity.
Defined.

(** X9: once a [Transfer-Encoding] header was accepted, a further header of
    that name raises "multiple Transfer-Encoding headers", also when its
    value is [chunked]. *)
Theorem normalize_and_validate_second_transfer_encoding
    (raw more : list raw_header) (h : list header) (n v : field_data) :
  normalize_and_validate raw = Ok h ->
  existsb (fun e : header => is_transfer_encoding (fst e)) h = true ->
  strip (bytesify n) = bytesify n ->
  is_transfer_encoding (bytesify n) = true ->
  normalize_and_validate (raw ++ (n, v) :: more)
  = Raise (ProtocolError MultipleTransferEncoding).
Proof.
  intros H Hex Hn Hte. pose proof H as H'.
  apply normalize_and_validate_ok in H' as (st' & Hloop & ->).
  unfold normalize_and_validate. rewrite for_each_app, Hloop, for_each_cons.
  apply for_each_normalize_flags in Hloop as [_ Hflag].
  rewrite Hex in Hflag. simpl in Hflag.
  unfold normalize_step. unfold is_transfer_encoding in Hte.
  rewrite (bool_decide_eq_true_2 _ Hn), Hte, Hflag.
  assert (Hne : bool_decide (lower (bytesify n) = B "content-length") = false).
  { apply bool_decide_eq_false_2. apply bool_decide_eq_true_1 in Hte.
    rewrite Hte. discriminate. }
  rewrite Hne. reflexivity.
Qed.

Lemma normalize_and_validate_second_transfer_encoding_witness :
  normalize_and_validate
    ([(Text "Transfer-Encoding", Text "chunked")] ++ [(Text "TRANSFER-ENCODING", Text "chunked")])
  = Raise (ProtocolError MultipleTransferEncoding).
Proof.
  apply (normalize_and_validate_second_transfer_encoding
           [(Text "Transfer-Encoding", Text "chunked")] []
           [(B "Transfer-Encoding", B "chunked")] (Text "TRANSFER-ENCODING") (Text "chunked"));
    reflexivity.
Defined.

(** * Further properties of [set_comma_header] *)

Lemma set_comma_header_list_at (σ : store) l name new_values :
  list_at (set_comma_header l name new_values σ) l
  = List.filter (fun h : header => negb (bool_decide (lower (fst h) = lower (bytesify name))))
      (list_at σ l)
    ++ map (fun v => (bytesify name, v)) new_values.
Proof.
  unfold list_at, set_comma_header. rewrite lookup_total_insert_eq.
  now rewrite keep_loop_append, append_loop_append.
Qed.

Lemma get_comma_header_kept_same hs name lowercase :
  get_comma_header
    (List.filter (fun h : header => negb (bool_decide (lower (fst h) = lower (bytesify name)))) hs)
    name lowercase = [].
Proof.
  apply get_comma_header_no_match. apply List.Forall_forall.
  intros e He. apply filter_In in He as [_ He].
  apply negb_true_iff in He. now apply bool_decide_eq_false_1 in He.
Qed.

Lemma get_comma_header_kept_other hs name name' lowercase :
  lower (bytesify name') <> lower (bytesify name) ->
  get_comma_header
    (List.filter (fun h : header => negb (bool_decide (lower (fst h) = lower (bytesify name)))) hs)
    name' lowercase
  = get_comma_header hs name' lowercase.
Proof.
  intros Hne. induction hs as [|[n v] hs IH]; [reflexivity|].
  cbn [List.filter fst]. rewrite get_comma_header_cons.
  destruct (bool_decide_reflect (lower n = lower (bytesify name))) as [Hn|Hn]; cbn [negb].
  - rewrite IH. rewrite bool_decide_eq_false_2 by congruence. reflexivity.
  - rewrite get_comma_header_cons, IH. reflexivity.
Qed.

Lemma get_comma_header_new_same name vs name' lowercase :
  lower (bytesify name') = lower (bytesify name) ->
  get_comma_header (map (fun v => (bytesify name, v)) vs) name' lowercase
  = concat (map (header_tokens lowercase) vs).
Proof.
  intros He. induction vs as [|v vs IH]; [reflexivity|].
  cbn [map concat]. rewrite get_comma_header_cons, IH.
  now rewrite bool_decide_eq_true_2.
Qed.

Lemma get_comma_header_new_other name vs name' lowercase :
  lower (bytesify name') <> lower (bytesify name) ->
  get_comma_header (map (fun v => (bytesify name, v)) vs) name' lowercase = [].
Proof.
  intros Hne. apply get_comma_header_no_match. apply List.Forall_forall.
  intros e He. apply in_map_iff in He as (v & <- & _). simpl. congruence.
Qed.

Lemma concat_clean_tokens vs :
  forallb clean_token vs = true -> concat (map (header_tokens false) vs) = vs.
Proof.
  induction vs as [|v vs IH]; [reflexivity|]. simpl.
  intros H. apply andb_true_iff in H as [Hv H].
  now rewrite header_tokens_clean_token, IH.
Qed.

(** X10: reading back what was set: after [set_comma_header] with values
    that are single tokens, [get_comma_header] for that name, without case
    folding, returns exactly those values, in order.  The old values of the
    header are gone. *)
Theorem set_then_get_comma_header (σ : store) (l : loc) (name : field_data)
    (new_values : list bytes) :
  forallb clean_token new_values = true ->
  get_comma_header (list_at (set_comma_header l name new_values σ) l) name false
  = new_values.
Proof.
  intros H. rewrite set_comma_header_list_at, get_comma_header_app.
  rewrite get_comma_header_kept_same, get_comma_header_new_same by reflexivity.
  now apply concat_clean_tokens.
Qed.

Lemma set_then_get_comma_header_witness :
  get_comma_header
    (list_at (set_comma_header 1%positive (Text "Connection") [B "close"; B "Upgrade"]
                {[ 1%positive := [(B "connection", B "keep-alive"); (B "Host", B "a")] ]})
             1%positive)
    (Text "Connection") false
  = [B "close"; B "Upgrade"].
Proof.
  apply (set_then_get_comma_header
           {[ 1%positive := [(B "connection", B "keep-alive"); (B "Host", B "a")] ]}
           1%positive (Text "Connection") [B "close"; B "Upgrade"]).
  reflexivity.
Defined.

(** X11: [set_comma_header] for one name leaves the comma list of every
    other name as it was. *)
Theorem set_comma_header_other_name (σ : store) (l : loc) (name name' : field_data)
    (new_values : list bytes) (lowercase : bool) :
  lower (bytesify name') <> lower (bytesify name) ->
  get_comma_header (list_at (set_comma_header l name new_values σ) l) name' lowercase
  = get_comma_header (list_at σ l) name' lowercase.
Proof.
  intros Hne. rewrite set_comma_header_list_at, get_comma_header_app.
  rewrite get_comma_header_kept_other, get_comma_header_new_other by exact Hne.
  apply app_nil_r.
Qed.

Lemma set_comma_header_other_name_witness :
  get_comma_header
    (list_at (set_comma_header 1%positive (Text "Connection") [B "close"]
                {[ 1%positive := [(B "Expect", B "100-continue"); (B "connection", B "x")] ]})
             1%positive)
    (Text "Expect") false
  = get_comma_header
      (list_at {[ 1%positive := [(B "Expect", B "100-continue"); (B "connection", B "x")] ]}
               1%positive)
      (Text "Expect") false.
Proof.
  apply (set_comma_header_other_name
           {[ 1%positive := [(B "Expect", B "100-continue"); (B "connection", B "x")] ]}
           1%positive (Text "Connection") (Text "Expect") [B "close"] false).
  discriminate.
Defined.

Lemma filter_kept_new name vs :
  List.filter (fun h : header => negb (bool_decide (lower (fst h) = lower (bytesify name))))
    (map (fun v => (bytesify name, v)) vs) = [].
Proof.
  induction vs as [|v vs IH]; [reflexivity|]. cbn [map List.filter fst].
  now rewrite bool_decide_eq_true_2.
Qed.

Lemma filter_idem {A} (f : A -> bool) l : List.filter f (List.filter f l) = List.filter f l.
Proof.
  induction l as [|a l IH]; [reflexivity|]. simpl.
  destruct (f a) eqn:Hf; [|exact IH]. simpl. now rewrite Hf, IH.
Qed.

(** X12: a second [set_comma_header] for the same name on the same list
    replaces what the first one wrote: only the last call counts. *)
Theorem set_comma_header_overwrites (σ : store) (l : loc) (name : field_data)
    (values1 values2 : list bytes) :
  set_comma_header l name values2 (set_comma_header l name values1 σ)
  = set_comma_header l name values2 σ.
Proof.
  assert (Hset : forall vs (τ : store),
    set_comma_header l name vs τ = <[l := list_at (set_comma_header l name vs τ) l]> τ).
  { intros vs τ. unfold list_at, set_comma_header at 2.
    rewrite lookup_total_insert_eq. reflexivity. }
  rewrite (Hset values2 (set_comma_header l name values1 σ)).
  rewrite (Hset values2 σ).
  rewrite !set_comma_header_list_at.
  rewrite List.filter_app, filter_idem, filter_kept_new, app_nil_r.
  unfold set_comma_header at 1. now rewrite insert_insert_eq.
Qed.

Lemma set_comma_header_get_other (σ : store) l name name' vs lowercase :
  lower (bytesify name') <> lower (bytesify name) ->
  get_comma_header (list_at (set_comma_header l name vs σ) l) name' lowercase
  = get_comma_header (list_at σ l) name' lowercase.
Proof.
  intros Hne. rewrite set_comma_header_list_at, get_comma_header_app.
  rewrite get_comma_header_kept_other, get_comma_header_new_other by exact Hne.
  apply app_nil_r.
Qed.

Lemma convert_as_raw h : map convert (as_raw h) = h.
Proof.
  induction h as [|[n v] h IH]; [reflexivity|].
  cbn [as_raw map]. fold (as_raw h). now rewrite IH.
Qed.

Lemma normalize_fixed_iff h :
  normalize_and_validate (as_raw h) = Ok h <-> well_formed h = true.
Proof.
  rewrite well_formed_iff_loop. unfold normalize_and_validate. split.
  - destruct (for_each normalize_step (as_raw h) _) as [st'|x]; [eauto | discriminate].
  - intros (st' & Hloop). rewrite Hloop. simpl.
    rewrite (for_each_normalize_new_headers _ _ _ Hloop). simpl.
    now rewrite convert_as_raw.
Qed.

Lemma forallb_filter_true {A} (f g : A -> bool) l :
  forallb f l = true -> forallb f (List.filter g l) = true.
Proof.
  induction l as [|a l IH]; [reflexivity|]. simpl.
  intros H. apply andb_true_iff in H as [Ha H].
  destruct (g a); simpl; [rewrite Ha|]; auto.
Qed.

Lemma length_filter_filter {A} (p g : A -> bool) l :
  (length (List.filter p (List.filter g l)) <= length (List.filter p l))%nat.
Proof.
  induction l as [|a l IH]; [reflexivity|]. simpl.
  destruct (g a), (p a) eqn:Hp; simpl; rewrite ?Hp; simpl; lia.
Qed.

Lemma forallb_new_entries (name : bytes) (vs : list bytes) (f : header -> bool) :
  (forall v, f (name, v) = true) ->
  forallb f (map (fun v => (name, v)) vs) = true.
Proof.
  intros Hf. induction vs as [|v vs IH]; [reflexivity|]. simpl. now rewrite Hf, IH.
Qed.

Lemma filter_new_entries (name : bytes) (vs : list bytes) (p : header -> bool) :
  (forall v, p (name, v) = false) ->
  List.filter p (map (fun v => (name, v)) vs) = [].
Proof.
  intros Hp. induction vs as [|v vs IH]; [reflexivity|]. simpl. now rewrite Hp, IH.
Qed.

Lemma well_formed_set_other hs name vs :
  well_formed hs = true ->
  strip (bytesify name) = bytesify name ->
  is_content_length (bytesify name) = false ->
  is_transfer_encoding (bytesify name) = false ->
  well_formed
    (List.filter (fun h : header => negb (bool_decide (lower (fst h) = lower (bytesify name)))) hs
     ++ map (fun v => (bytesify name, v)) vs) = true.
Proof.
  unfold well_formed. intros H Hn Hcl Hte.
  apply andb_true_iff in H as [H H5].
  apply andb_true_iff in H as [H H4].
  apply andb_true_iff in H as [H H3].
  apply andb_true_iff in H as [H1 H2].
  apply Nat.leb_le in H2, H4.
  set (keep := fun h : header => negb (bool_decide (lower (fst h) = lower (bytesify name)))).
  pose proof (forallb_new_entries (bytesify name) vs) as Hnew.
  pose proof (filter_new_entries (bytesify name) vs) as Hnone.
  rewrite !forallb_app, !List.filter_app, !length_app.
  rewrite !Hnone by (intros v; assumption).
  rewrite !forallb_filter_true by assumption.
  rewrite !Hnew.
  - cbn [length andb]. rewrite !Nat.add_0_r, !andb_true_r.
    pose proof (length_filter_filter (fun e : header => is_content_length (fst e)) keep hs).
    pose proof (length_filter_filter (fun e : header => is_transfer_encoding (fst e)) keep hs).
    apply andb_true_iff. split; apply Nat.leb_le; lia.
  - intros v. cbn [fst]. now rewrite Hte.
  - intros v. cbn [fst]. now rewrite Hcl.
  - intros v. cbn [fst]. now apply bool_decide_eq_true_2.
Qed.

(** X13: [set_comma_header] on a normalized list, for a name that is neither
    [Content-Length] nor [Transfer-Encoding] and has no surrounding
    whitespace, leaves a list that [normalize_and_validate] accepts
    unchanged, whatever the new values are. *)
Theorem set_comma_header_keeps_normalized (σ : store) (l : loc) (name : field_data)
    (new_values : list bytes) :
  normalize_and_validate (as_raw (list_at σ l)) = Ok (list_at σ l) ->
  strip (bytesify name) = bytesify name ->
  is_content_length (bytesify name) = false ->
  is_transfer_encoding (bytesify name) = false ->
  normalize_and_validate (as_raw (list_at (set_comma_header l name new_values σ) l))
  = Ok (list_at (set_comma_header l name new_values σ) l).
Proof.
  intros H Hn Hcl Hte. apply normalize_fixed_iff in H. apply normalize_fixed_iff.
  rewrite set_comma_header_list_at. now apply well_formed_set_other.
Qed.

Lemma set_comma_header_keeps_normalized_witness :
  normalize_and_validate
    (as_raw (list_at (set_comma_header 1%positive (Text "Connection") [B " close, x "]
                        {[ 1%positive := [(B "Content-Length", B "3"); (B "connection", B "a")] ]})
                     1%positive))
  = Ok (list_at (set_comma_header 1%positive (Text "Connection") [B " close, x "]
                   {[ 1%positive := [(B "Content-Length", B "3"); (B "connection", B "a")] ]})
                1%positive).
Proof.
  apply (set_comma_header_keeps_normalized
           {[ 1%positive := [(B "Content-Length", B "3"); (B "connection", B "a")] ]}
           1%positive (Text "Connection") [B " close, x "]);
    vm_compute; reflexivity.
Defined.

(** X14: [set_comma_header] for a name other than [Transfer-Encoding] and
    [Content-Length] does not change what [framing_headers] returns or
    raises. *)
Theorem set_comma_header_keeps_framing (σ : store) (l : loc) (name : field_data)
    (new_values : list bytes) :
  is_content_length (bytesify name) = false ->
  is_transfer_encoding (bytesify name) = false ->
  framing_headers (list_at (set_comma_header l name new_values σ) l)
  = framing_headers (list_at σ l).
Proof.
  unfold is_content_length, is_transfer_encoding. intros Hcl Hte.
  apply bool_decide_eq_false_1 in Hcl, Hte.
  unfold framing_headers.
  rewrite !set_comma_header_get_other; [reflexivity | |];
    intros H; [apply Hcl | apply Hte]; rewrite <- H; reflexivity.
Qed.

Lemma set_comma_header_keeps_framing_witness :
  framing_headers
    (list_at (set_comma_header 1%positive (Text "Connection") [B "close"]
                {[ 1%positive := [(B "Content-Length", B "3"); (B "connection", B "a")] ]})
             1%positive)
  = framing_headers
      (list_at {[ 1%positive := [(B "Content-Length", B "3"); (B "connection", B "a")] ]}
               1%positive).
Proof.
  apply (set_comma_header_keeps_framing
           {[ 1%positive := [(B "Content-Length", B "3"); (B "connection", B "a")] ]}
           1%positive (Text "Connection") [B "close"]);
    reflexivity.
Defined.

(** X15: [set_comma_header] goes round the validation (the FIXME above it):
    after it has set [Transfer-Encoding] to tokens that are not the single
    token [chunked], in any case, [framing_headers] fails its assertion;
    when they are, it returns [(b"chunked", None)]. *)
Theorem set_transfer_encoding_then_framing (σ : store) (l : loc) (name : field_data)
    (new_values : list bytes) :
  is_transfer_encoding (bytesify name) = true ->
  forallb clean_token new_values = true ->
  new_values <> [] ->
  framing_headers (list_at (set_comma_header l name new_values σ) l)
  = if bool_decide (map lower new_values = [B "chunked"])
    then Ok (Some (B "chunked"), None)
    else Raise AssertionError.
Proof.
  unfold is_transfer_encoding. intros Hte Hclean Hne.
  apply bool_decide_eq_true_1 in Hte.
  assert (Hget : get_comma_header (list_at (set_comma_header l name new_values σ) l)
                   (Text "Transfer-Encoding") true = map lower new_values).
  { rewrite get_comma_header_lower_map.
    rewrite set_comma_header_list_at, get_comma_header_app.
    rewrite get_comma_header_no_match.
    - rewrite get_comma_header_new_same by (rewrite Hte; reflexivity).
      now rewrite concat_clean_tokens.
    - apply List.Forall_forall. intros e He. apply filter_In in He as [_ He].
      apply negb_true_iff in He. apply bool_decide_eq_false_1 in He.
      rewrite Hte in He. exact He. }
  unfold framing_headers. rewrite Hget.
  destruct new_values as [|v vs]; [congruence | reflexivity].
Qed.

Lemma set_transfer_encoding_then_framing_witness :
  framing_headers
    (list_at (set_comma_header 1%positive (Text "Transfer-Encoding") [B "gzip"; B "chunked"]
                {[ 1%positive := [(B "transfer-encoding", B "chunked")] ]})
             1%positive)
  = Raise AssertionError.
Proof.
  apply (set_transfer_encoding_then_framing
           {[ 1%positive := [(B "transfer-encoding", B "chunked")] ]}
           1%positive (Text "Transfer-Encoding") [B "gzip"; B "chunked"]);
    [reflexivity | reflexivity | discriminate].
Defined.

(** * Further properties of [has_expect_100_continue] *)

(** X16: for one protocol version, a request with the headers [h1 ++ h2]
    expects a 100-continue exactly when one with [h1] or one with [h2] does:
    further headers never take the expectation away. *)
Theorem has_expect_100_continue_concat (version : bytes) (h1 h2 : list header) :
  has_expect_100_continue {| http_version := version; headers := h1 ++ h2 |}
  = has_expect_100_continue {| http_version := version; headers := h1 |}
    || has_expect_100_continue {| http_version := version; headers := h2 |}.
Proof.
  unfold has_expect_100_continue. cbn [http_version headers].
  destruct (bytes_ltb version (B "1.1")); [reflexivity|].
  rewrite get_comma_header_app. unfold bytes_in. apply existsb_app.
Qed.

(** * Further properties of [framing_headers] *)

(** X17: on any header list, normalized or not, a result of
    [framing_headers] never has both components: the first is [None] or
    [b"chunked"], and with [b"chunked"] the second is [None] ("at least one
    will always be None"). *)
Theorem framing_headers_never_both (h : list header) (te : option bytes) (cl : option Z) :
  framing_headers h = Ok (te, cl) ->
  (te = Some (B "chunked") /\ cl = None) \/ te = None.
Proof.
  unfold framing_headers.
  destruct (truthy _).
  - case_bool_decide; [|discriminate]. intros [= <- <-]. now left.
  - destruct (get_comma_header h (Text "Content-Length") true) as [|first rest].
    + intros [= <- <-]. now right.
    + destruct (py_int first); [|discriminate]. intros [= <- <-]. now right.
Qed.

Lemma framing_headers_never_both_witness :
  (Some (B "chunked") = Some (B "chunked") /\ @None Z = None)
  \/ Some (B "chunked") = None.
Proof.
  apply (framing_headers_never_both
           [(B "Content-Length", B "7"); (B "transfer-encoding", B "CHUNKED")]
           (Some (B "chunked")) None).
  reflexivity.
Defined.
